(** * REINFORCE exercise notebook: return calculator, episode sampler,
    trainer loop and score smoothing

  Shallow embedding of the code cells of [REINFORCE_exercise.ipynb].
  Python floats are read as the real numbers they stand for (exact
  arithmetic); Python lists and one-dimensional numpy arrays are [list R];
  a call that can raise returns a [pyresult]. *)

From Stdlib Require Import Reals List Lia Lra ZArith Bool Arith.
Import ListNotations.

Open Scope R_scope.

(** ** Python results *)

Module Py.

Inductive exn : Type :=
| ValueError : exn.

Inductive pyresult (A : Type) : Type :=
| Returned : A -> pyresult A
| Raised : exn -> pyresult A.

Arguments Returned {A} _.
Arguments Raised {A} _.

Definition bind {A B : Type} (m : pyresult A) (k : A -> pyresult B)
  : pyresult B :=
  match m with
  | Returned a => k a
  | Raised e => Raised e
  end.

(** Python's builtin [sum]: a left-to-right accumulation started at 0. *)
Definition sum (l : list R) : R := fold_left Rplus l 0.

(** [len] as a real, and [np.mean] of a one-dimensional array. *)
Definition mean (l : list R) : R := sum l / INR (length l).

End Py.

Notation "x <- m ;; k" := (Py.bind m (fun x => k))
(at level 61, m at next level, right associativity).

(** ** Return Calculator (cell [compute_returns_baseline]) *)

Module ReturnCalculator.

(** Body of [for step in reversed(range(len(rewards)))]: the loop state is
    the running return [r] and the list [returns];
    [r = rewards[step] + gamma * r] then [returns.insert(0, r)].  The index
    [step] comes from [range(len(rewards))], so [rewards[step]] is always in
    range. *)
Definition loop_body (rewards : list R) (gamma : R)
           (st : R * list R) (step : nat) : R * list R :=
  let r := nth step rewards 0 + gamma * fst st in
  (r, r :: snd st).

(** [r = 0; returns = []] followed by the loop. *)
Definition backward_loop (rewards : list R) (gamma : R) : R * list R :=
  fold_left (loop_body rewards gamma)
            (rev (seq 0 (length rewards)))
            (0, []).

(** The list [returns] right after the loop, that is, before the
    normalisation statement. *)
Definition discounted_returns (rewards : list R) (gamma : R) : list R :=
  snd (backward_loop rewards gamma).

(** [np.std]: the population standard deviation
    [sqrt(mean(abs(x - x.mean())**2))]. *)
Definition variance (l : list R) : R :=
  Py.mean (map (fun x => (x - Py.mean l) * (x - Py.mean l)) l).

Definition std (l : list R) : R := sqrt (variance l).

Definition centered (l : list R) : list R :=
  map (fun x => x - Py.mean l) l.

(** Modelled from the spec: the statement the notebook leaves as
    [returns = ...] under the comment "IMPLEMENT-ME: normalize the returns
    by subtracting the mean and dividing by the standard deviation".  The
    spec (4.1) has it subtract the mean of the returns and divide by their
    population standard deviation, and return the mean-centred values
    unscaled when that standard deviation is zero. *)
Definition normalize_returns (returns : list R) : list R :=
  if Req_dec_T (std returns) 0
  then centered returns
  else map (fun x => x / std returns) (centered returns).

(** The whole cell.  Nothing in it raises: there is no check on [rewards]
    before the loop, and the loop indexes [rewards] only inside its range. *)
Definition compute_returns_baseline (rewards : list R) (gamma : R)
  : Py.pyresult (list R) :=
  let returns := discounted_returns rewards gamma in
  let returns := normalize_returns returns in
  Py.Returned returns.

(** The recurrence the loop realises, written by structural recursion on the
    rewards; used only to reason about [backward_loop]. *)
Fixpoint returns_rec (rewards : list R) (gamma : R) : list R :=
  match rewards with
  | [] => []
  | r :: rs =>
      let G := returns_rec rs gamma in
      (r + gamma * hd 0 G) :: G
  end.

End ReturnCalculator.

(** ** Array division with float64's special values *)

Module FloatDivision.






End FloatDivision.


(** ** Episode Sampler and Policy-Gradient Trainer (cell [reinforce]) *)

Module Trainer.

(** What the trainer consumes and the notebook does not define: the
    environment, the policy with its random source, and the optimiser, all
    reached through statements the notebook leaves as [...] under an
    IMPLEMENT-ME comment.  [W] is the state all of them share (environment
    state, policy parameters, random stream, optimiser moments). *)
Class Collaborators (W : Type) : Type := {
  (** seeding, [Policy().to(device)] and [optim.Adam(...)] at the top of
      [reinforce] *)
  initialise : Z -> W;
  (** [state = env.reset()] *)
  env_reset : W -> W;
  (** the four statements at the top of the step loop ([dist], [action],
      [log_prob], and [state, reward, done, _ = ...], an [env.step] call as
      in the rendering cell); yields the new state, the log-probability, the
      reward and the done flag *)
  act : W -> W * R * R * bool;
  (** part 2 and part 3 of an episode: the loss built from the
      log-probabilities and the rewards, then
      [optimizer.zero_grad(); policy_loss.backward(); optimizer.step()] *)
  update : W -> list R -> list R -> W
}.

(** The module-level hyperparameters the loops read (reference values 1500
    and 1000). *)
Record Hyper : Type := {
  number_episodes : nat;
  max_episode_length : nat
}.

Definition reference_hyper : Hyper :=
  {| number_episodes := 1500; max_episode_length := 1000 |}.

(** [for t in range(max_episode_length)]: [steps_left] counts the iterations
    that remain; each one appends to [rewards] and [log_probs] and leaves the
    loop on [done]. *)
Fixpoint collect {W : Type} `{Collaborators W} (steps_left : nat) (w : W)
         (log_probs rewards : list R) : W * list R * list R :=
  match steps_left with
  | O => (w, log_probs, rewards)
  | S k =>
      let '(w', log_prob, reward, done) := act w in
      let rewards' := rewards ++ [reward] in
      let log_probs' := log_probs ++ [log_prob] in
      if done then (w', log_probs', rewards')
      else collect k w' log_probs' rewards'
  end.

(** One episode's data collection: [log_probs = []; rewards = [];
    state = env.reset()] and the step loop. *)
Definition sample_episode {W : Type} `{Collaborators W} (h : Hyper) (w : W)
  : W * list R * list R :=
  collect (max_episode_length h) (env_reset w) [] [].

(** [scores_deque.append(x)] on a [deque(maxlen=100)]: a full deque drops its
    oldest entry. *)
Definition deque_append (d : list R) (x : R) : list R :=
  if (100 <=? length d)%nat then tl d ++ [x] else d ++ [x].

(** [np.mean(scores_deque) >= 495.0] *)
Definition reached_threshold (d : list R) : bool :=
  if Rle_dec 495 (Py.mean d) then true else false.

(** [for episode in range(1, number_episodes+1)]: [episodes_left] counts the
    iterations that remain.  The two [print] calls write to the output only
    and are left out; the [break] is taken when
    [np.mean(scores_deque) >= 495.0 and verbose].  [reinforce_baseline] has
    the same loop, its part 2 calling [compute_returns_baseline]. *)
Fixpoint episode_loop {W : Type} `{Collaborators W} (h : Hyper)
         (verbose : bool) (episodes_left : nat) (w : W)
         (scores scores_deque : list R) : W * list R :=
  match episodes_left with
  | O => (w, scores)
  | S k =>
      let '(w1, log_probs, rewards) := sample_episode h w in
      let scores' := scores ++ [Py.sum rewards] in
      let scores_deque' := deque_append scores_deque (Py.sum rewards) in
      let w2 := update w1 log_probs rewards in
      if reached_threshold scores_deque' && verbose then (w2, scores')
      else episode_loop h verbose k w2 scores' scores_deque'
  end.

(** [reinforce(seed, verbose)]; returns the policy (inside the state) and
    [scores]. *)
Definition reinforce {W : Type} `{Collaborators W} (h : Hyper) (seed : Z)
           (verbose : bool) : W * list R :=
  episode_loop h verbose (number_episodes h) (initialise seed) [] [].

(** The collection loop of the variance study:
    [_, scores = reinforce(int(seed), verbose=False)] for each seed. *)
Definition all_scores {W : Type} `{Collaborators W} (h : Hyper)
           (seeds : list Z) : list (list R) :=
  map (fun seed => snd (reinforce h seed false)) seeds.

(** The steps the collaborators would produce from a state, one after the
    other, with no cap and no exit: the state before step [i], and the
    log-probability, reward and done flag of step [i]. *)
Fixpoint state_before {W : Type} `{Collaborators W} (w : W) (i : nat) : W :=
  match i with
  | O => w
  | S j =>
      let '(w', _, _, _) := act w in
      state_before w' j
  end.

Definition log_prob_at {W : Type} `{Collaborators W} (w : W) (i : nat) : R :=
  let '(_, log_prob, _, _) := act (state_before w i) in log_prob.

Definition reward_at {W : Type} `{Collaborators W} (w : W) (i : nat) : R :=
  let '(_, _, reward, _) := act (state_before w i) in reward.

Definition done_at {W : Type} `{Collaborators W} (w : W) (i : nat) : bool :=
  let '(_, _, _, done) := act (state_before w i) in done.

(** How many iterations the step loop runs from [w] when [steps_left] are
    allowed. *)
Fixpoint steps_taken {W : Type} `{Collaborators W} (steps_left : nat) (w : W)
  : nat :=
  match steps_left with
  | O => O
  | S k =>
      let '(w', _, _, done) := act w in
      if done then 1%nat else S (steps_taken k w')
  end.

(** The most recent (up to) [k] entries of a history. *)
Definition last_entries (k : nat) (l : list R) : list R :=
  skipn (length l - k) l.

(** The rolling average the stopping rule reads after an episode: the mean of
    the most recent (up to) 100 scores. *)
Definition rolling_average (scores : list R) : R :=
  Py.mean (last_entries 100 scores).

(** The Episode Trace: the pairs (log-probability, reward) of one episode. *)
Definition episode_trace {W : Type} `{Collaborators W} (h : Hyper) (w : W)
  : list (R * R) :=
  let '(_, log_probs, rewards) := sample_episode h w in
  combine log_probs rewards.

End Trainer.

(** ** Stub collaborators *)

Module Stub.

(** An environment that pays [reward] at every step and reports done at the
    step numbered [horizon], whatever the action; the state counts the steps
    of the running episode, and the optimiser does nothing. *)
Definition counting (reward : R) (horizon : nat)
  : Trainer.Collaborators nat :=
  {| Trainer.initialise := fun _ => O;
     Trainer.env_reset := fun _ => O;
     Trainer.act := fun k => (S k, 0, reward, (S k =? horizon)%nat);
     Trainer.update := fun w _ _ => w |}.

End Stub.

(** ** Score smoothing (cell [moving_average]) *)

Module Smoothing.

(** [np.cumsum(a, dtype=float)] *)
Fixpoint cumsum_from (acc : R) (a : list R) : list R :=
  match a with
  | [] => []
  | x :: rest => (acc + x) :: cumsum_from (acc + x) rest
  end.

Definition cumsum (a : list R) : list R := cumsum_from 0 a.

(** Where a slice bound [i] falls in a sequence of length [len]: negative
    bounds count from the end, and both kinds are clipped to [0..len]. *)
Definition slice_bound (i : Z) (len : nat) : nat :=
  if (i <? 0)%Z
  then Z.to_nat (Z.max 0 (Z.of_nat len + i))
  else Z.to_nat (Z.min i (Z.of_nat len)).

(** [x[i:]] and [x[:i]] *)
Definition slice_from (i : Z) (x : list R) : list R :=
  skipn (slice_bound i (length x)) x.

Definition slice_to (i : Z) (x : list R) : list R :=
  firstn (slice_bound i (length x)) x.

Fixpoint zip_sub (x y : list R) : list R :=
  match x, y with
  | a :: x', b :: y' => (a - b) :: zip_sub x' y'
  | _, _ => []
  end.

(** [x - y] on one-dimensional arrays: equal shapes subtract entry by entry,
    a one-entry operand is stretched, anything else is a shape error. *)
Definition array_sub (x y : list R) : Py.pyresult (list R) :=
  if (length x =? length y)%nat then Py.Returned (zip_sub x y)
  else if (length y =? 1)%nat
       then Py.Returned (map (fun a => a - hd 0 y) x)
  else if (length x =? 1)%nat
       then Py.Returned (map (fun b => hd 0 x - b) y)
  else Py.Raised Py.ValueError.

(** [x[i:] = v]: [v] must have the shape of the slice or a single entry. *)
Definition assign_from (i : Z) (x v : list R) : Py.pyresult (list R) :=
  let k := slice_bound i (length x) in
  let slot := (length x - k)%nat in
  if (length v =? slot)%nat then Py.Returned (firstn k x ++ v)
  else if (length v =? 1)%nat
       then Py.Returned (firstn k x ++ repeat (hd 0 v) slot)
  else Py.Raised Py.ValueError.

(** [[
def moving_average(a, n) :
    ret = np.cumsum(a, dtype=float)
    ret[n:] = ret[n:] - ret[:-n]
    return ret / n
]] *)
Definition moving_average (a : list R) (n : Z) : Py.pyresult (list R) :=
  let ret := cumsum a in
  diff <- array_sub (slice_from n ret) (slice_to (- n) ret) ;;
  ret <- assign_from n ret diff ;;
  Py.Returned (map (fun x => x / IZR n) ret).

(** The [n] entries [a[t-n+1..t]] that end at index [t]. *)
Definition window (a : list R) (n t : nat) : list R :=
  firstn n (skipn (t + 1 - n) a).

End Smoothing.


(** ** Aggregation over seeds (cell [smoothed_scores]) *)

Module Experiment.

(** [[smoothed_scores = [moving_average(s, 50) for s in all_scores]]] *)
Definition smoothed_scores {W : Type} `{Trainer.Collaborators W}
           (h : Trainer.Hyper) (seeds : list Z)
  : list (Py.pyresult (list R)) :=
  map (fun s => Smoothing.moving_average s 50) (Trainer.all_scores h seeds).

End Experiment.

(** * Properties *)

Import Py ReturnCalculator.

(** ** Sums and means *)

Section Sums.

Lemma fold_plus_acc (l : list R) (a : R) :
  fold_left Rplus l a = a + fold_left Rplus l 0.
Proof.
  revert a; induction l as [|x l IH]; intros a; simpl.
  - ring.
  - rewrite (IH (a + x)), (IH (0 + x)). ring.
Qed.

Lemma sum_nil : sum [] = 0.
Proof. reflexivity. Qed.

Lemma sum_cons (x : R) (l : list R) : sum (x :: l) = x + sum l.
Proof.
  unfold sum; simpl. rewrite fold_plus_acc. ring.
Qed.

Lemma sum_app (l1 l2 : list R) : sum (l1 ++ l2) = sum l1 + sum l2.
Proof.
  induction l1 as [|x l1 IH]; simpl.
  - rewrite sum_nil. ring.
  - rewrite !sum_cons, IH. ring.
Qed.

Lemma sum_map_minus (c : R) (l : list R) :
  sum (map (fun x => x - c) l) = sum l - INR (length l) * c.
Proof.
  induction l as [|x l IH].
  - simpl. rewrite sum_nil. ring.
  - change (map (fun x0 => x0 - c) (x :: l))
      with ((x - c) :: map (fun x0 => x0 - c) l).
    rewrite !sum_cons, IH.
    change (length (x :: l)) with (S (length l)).
    rewrite S_INR. ring.
Qed.

Lemma sum_map_scale (c : R) (l : list R) :
  sum (map (fun x => x * c) l) = sum l * c.
Proof.
  induction l as [|x l IH]; simpl.
  - rewrite sum_nil. ring.
  - rewrite !sum_cons, IH. ring.
Qed.

Lemma INR_length_cons_neq_0 (x : R) (l : list R) : INR (length (x :: l)) <> 0.
Proof.
  apply not_0_INR. simpl. discriminate.
Qed.

End Sums.

(** ** The backward loop *)

Section BackwardLoop.

Variable gamma : R.

Lemma loop_body_shift (r : R) (rs : list R) (steps : list nat)
      (st : R * list R) :
  fold_left (loop_body (r :: rs) gamma) (map S steps) st
  = fold_left (loop_body rs gamma) steps st.
Proof.
  revert st; induction steps as [|i steps IH]; intros st; simpl.
  - reflexivity.
  - apply IH.
Qed.

Lemma backward_loop_rec (rewards : list R) :
  backward_loop rewards gamma
  = (hd 0 (returns_rec rewards gamma), returns_rec rewards gamma).
Proof.
  induction rewards as [|r rs IH].
  - reflexivity.
  - unfold backward_loop in *.
    change (length (r :: rs)) with (S (length rs)).
    rewrite <- cons_seq, <- seq_shift. simpl rev.
    rewrite fold_left_app, <- map_rev, loop_body_shift, IH.
    reflexivity.
Qed.

Lemma discounted_returns_rec (rewards : list R) :
  discounted_returns rewards gamma = returns_rec rewards gamma.
Proof.
  unfold discounted_returns. now rewrite backward_loop_rec.
Qed.

Lemma returns_rec_length (rewards : list R) :
  length (returns_rec rewards gamma) = length rewards.
Proof.
  induction rewards as [|r rs IH]; simpl; congruence.
Qed.

Lemma discounted_returns_length (rewards : list R) :
  length (discounted_returns rewards gamma) = length rewards.
Proof.
  rewrite discounted_returns_rec. apply returns_rec_length.
Qed.

Lemma hd_nth_0 (l : list R) : hd 0 l = nth 0 l 0.
Proof. now destruct l. Qed.

Lemma returns_rec_step (rewards : list R) (t : nat) :
  (t < length rewards)%nat ->
  nth t (returns_rec rewards gamma) 0
  = nth t rewards 0 + gamma * nth (S t) (returns_rec rewards gamma) 0.
Proof.
  revert t; induction rewards as [|r rs IH]; intros t Ht.
  - simpl in Ht. lia.
  - destruct t as [|t].
    + simpl. now rewrite hd_nth_0.
    + simpl in Ht. apply IH. lia.
Qed.

End BackwardLoop.

(** C1.  For a non-empty reward list the list [returns] built by the backward
    loop of [compute_returns_baseline] has one entry per reward, satisfies
    [G_t = r_t + gamma * G_(t+1)] at every [t < T], and ends in [G_T = r_T]. *)
Theorem returns_recurrence (rewards : list R) (gamma : R) :
  rewards <> [] ->
  let G := discounted_returns rewards gamma in
  let T := (length rewards - 1)%nat in
  length G = S T
  /\ (forall t, (t < T)%nat ->
                nth t G 0 = nth t rewards 0 + gamma * nth (S t) G 0)
  /\ nth T G 0 = nth T rewards 0.
Proof.
  intros Hne G T. subst G T.
  assert (Hlen : (0 < length rewards)%nat).
  { destruct rewards; [congruence | simpl; lia]. }
  rewrite discounted_returns_rec.
  split; [|split].
  - rewrite returns_rec_length. lia.
  - intros t Ht. apply returns_rec_step. lia.
  - rewrite returns_rec_step by lia.
    rewrite (nth_overflow (returns_rec rewards gamma)).
    + ring.
    + rewrite returns_rec_length. lia.
Qed.

Lemma returns_recurrence_witness :
  [1; 1; 1] <> []
  /\ length (discounted_returns [1; 1; 1] (1 / 2)) = 3%nat
  /\ (forall t, (t < 2)%nat ->
                nth t (discounted_returns [1; 1; 1] (1 / 2)) 0
                = nth t [1; 1; 1] 0
                  + 1 / 2 * nth (S t) (discounted_returns [1; 1; 1] (1 / 2)) 0)
  /\ nth 2 (discounted_returns [1; 1; 1] (1 / 2)) 0 = nth 2 [1; 1; 1] 0.
Proof.
  split; [discriminate|].
  apply (returns_recurrence [1; 1; 1] (1 / 2)). discriminate.
Defined.

(** The scenario of the spec: rewards [1,1,1] with discount one half. *)
Example discounted_returns_scenario :
  discounted_returns [1; 1; 1] (1 / 2) = [7 / 4; 3 / 2; 1].
Proof.
  unfold discounted_returns, backward_loop, loop_body; simpl.
  repeat (f_equal; try lra).
Qed.

(** ** Normalisation *)

Section Normalisation.

Lemma centered_length (l : list R) : length (centered l) = length l.
Proof. unfold centered. apply length_map. Qed.

Lemma normalize_returns_length (l : list R) :
  length (normalize_returns l) = length l.
Proof.
  unfold normalize_returns.
  destruct (Req_dec_T (std l) 0); rewrite ?length_map; apply centered_length.
Qed.

Lemma sum_centered (l : list R) : l <> [] -> sum (centered l) = 0.
Proof.
  intros Hne. unfold centered. rewrite sum_map_minus. unfold mean.
  destruct l as [|x l]; [congruence|].
  field. apply INR_length_cons_neq_0.
Qed.

Lemma mean_centered (l : list R) : l <> [] -> mean (centered l) = 0.
Proof.
  intros Hne. unfold mean at 1. rewrite sum_centered by assumption.
  unfold Rdiv. ring.
Qed.

Lemma mean_scaled_centered (l : list R) (s : R) :
  l <> [] -> mean (map (fun x => x / s) (centered l)) = 0.
Proof.
  intros Hne. unfold mean.
  change (fun x => x / s) with (fun x => x * / s).
  rewrite sum_map_scale, sum_centered by assumption.
  unfold Rdiv. ring.
Qed.

Lemma std_nonzero_variance_pos (l : list R) : std l <> 0 -> 0 < variance l.
Proof.
  unfold std. intros Hs.
  destruct (Rlt_le_dec 0 (variance l)) as [Hpos | Hle]; [assumption|].
  exfalso. apply Hs. apply sqrt_neg_0. assumption.
Qed.

Lemma std_squared (l : list R) : std l <> 0 -> std l * std l = variance l.
Proof.
  intros Hs. unfold std. apply sqrt_sqrt.
  apply Rlt_le, std_nonzero_variance_pos, Hs.
Qed.

Lemma variance_unfold (l : list R) :
  variance l
  = sum (map (fun x => (x - mean l) * (x - mean l)) l) / INR (length l).
Proof.
  unfold variance. unfold mean at 1. now rewrite length_map.
Qed.

Lemma variance_scaled_centered (l : list R) :
  l <> [] -> std l <> 0 ->
  variance (map (fun x => x / std l) (centered l)) = 1.
Proof.
  intros Hne Hs.
  assert (Hn : INR (length l) <> 0).
  { destruct l; [congruence | apply INR_length_cons_neq_0]. }
  pose proof (std_nonzero_variance_pos l Hs) as Hpos.
  pose proof (std_squared l Hs) as Hsq.
  rewrite variance_unfold in Hpos, Hsq.
  rewrite variance_unfold.
  rewrite mean_scaled_centered by assumption.
  unfold centered. rewrite !map_map, length_map.
  rewrite (map_ext _ (fun x => (x - mean l) * (x - mean l)
                               * / (std l * std l)))
    by (intros x; field; exact Hs).
  rewrite <- (map_map (fun x => (x - mean l) * (x - mean l))
                      (fun y => y * / (std l * std l))).
  rewrite sum_map_scale, Hsq.
  set (q := sum (map (fun x => (x - mean l) * (x - mean l)) l)) in *.
  assert (Hq : q <> 0).
  { intros Hq0. rewrite Hq0 in Hpos. unfold Rdiv in Hpos.
    rewrite Rmult_0_l in Hpos. lra. }
  field. split; assumption.
Qed.

Lemma discounted_returns_nonempty (rewards : list R) (gamma : R) :
  rewards <> [] -> discounted_returns rewards gamma <> [].
Proof.
  intros Hne Hnil. apply Hne.
  apply length_zero_iff_nil.
  rewrite <- (discounted_returns_length gamma), Hnil. reflexivity.
Qed.

Lemma sum_map_nonneg (f : R -> R) (l : list R) :
  (forall x, 0 <= f x) -> 0 <= sum (map f l).
Proof.
  intros Hf. induction l as [|x l IH]; simpl.
  - rewrite sum_nil. lra.
  - rewrite sum_cons. specialize (Hf x). lra.
Qed.

Lemma sum_map_zero (f : R -> R) (l : list R) :
  (forall x, 0 <= f x) -> sum (map f l) = 0 ->
  forall x, In x l -> f x = 0.
Proof.
  intros Hf. induction l as [|y l IH]; simpl; intros Hsum x Hin.
  - contradiction.
  - rewrite sum_cons in Hsum.
    pose proof (Hf y) as Hy.
    pose proof (sum_map_nonneg f l Hf) as Hl.
    destruct Hin as [<- | Hin].
    + lra.
    + apply IH; [lra | exact Hin].
Qed.

(** Returns of zero standard deviation are all equal to their mean, so
    centring them leaves zeros. *)
Lemma zero_std_centered_zero (l : list R) :
  std l = 0 -> centered l = repeat 0 (length l).
Proof.
  intros Hz. destruct l as [|x0 l0] eqn:El; [reflexivity|]. rewrite <- El in *.
  assert (Hn : 0 < INR (length l)).
  { rewrite El. apply lt_0_INR. simpl. lia. }
  assert (Hsq : forall x, 0 <= (x - mean l) * (x - mean l)).
  { intros x. apply (Rle_0_sqr (x - mean l)). }
  pose proof (sum_map_nonneg _ l Hsq) as Hq.
  assert (Hv : variance l = 0).
  { unfold std in Hz. apply sqrt_eq_0 in Hz; [exact Hz|].
    rewrite variance_unfold. apply Rmult_le_pos; [exact Hq|].
    apply Rlt_le, Rinv_0_lt_compat, Hn. }
  rewrite variance_unfold in Hv.
  assert (Hq0 : sum (map (fun x => (x - mean l) * (x - mean l)) l) = 0).
  { apply (Rmult_eq_reg_r (/ INR (length l))).
    - rewrite Rmult_0_l. exact Hv.
    - apply Rinv_neq_0_compat. lra. }
  pose proof (sum_map_zero _ l Hsq Hq0) as Hall.
  unfold centered. clear El Hn Hq Hv Hq0 Hz.
  generalize (mean l) Hall. clear Hall Hsq. intros m Hall.
  induction l as [|y l IH]; [reflexivity|].
  simpl. f_equal.
  - specialize (Hall y (or_introl eq_refl)). nra.
  - apply IH. intros x Hin. apply Hall. now right.
Qed.

End Normalisation.

(** ** The baseline variant as a whole *)

(** With discount 1 the head of the list built by the backward loop is the
    sum of the rewards. *)
Lemma first_return_undiscounted (rewards : list R) :
  rewards <> [] ->
  nth_error (discounted_returns rewards 1) 0 = Some (sum rewards).
Proof.
  intros Hne. rewrite discounted_returns_rec.
  destruct rewards as [|r rs]; [congruence|]. clear Hne.
  simpl. f_equal. rewrite sum_cons. f_equal.
  rewrite Rmult_1_l.
  induction rs as [|r' rs IH].
  - reflexivity.
  - simpl. rewrite sum_cons, Rmult_1_l, IH. reflexivity.
Qed.

(** C7.  When the returns of a non-empty reward list have a non-zero
    population standard deviation, the normalised returns have mean 0 and
    population variance 1 (hence standard deviation 1). *)
Theorem normalized_returns_mean_0_variance_1 (rewards : list R) (gamma : R) :
  rewards <> [] ->
  std (discounted_returns rewards gamma) <> 0 ->
  exists out,
    compute_returns_baseline rewards gamma = Returned out
    /\ mean out = 0
    /\ variance out = 1
    /\ std out = 1.
Proof.
  intros Hne Hs.
  pose proof (discounted_returns_nonempty rewards gamma Hne) as HG.
  unfold compute_returns_baseline, normalize_returns.
  destruct (Req_dec_T (std (discounted_returns rewards gamma)) 0)
    as [Hz | _]; [contradiction|].
  eexists. split; [reflexivity|].
  split; [|split].
  - apply mean_scaled_centered; assumption.
  - apply variance_scaled_centered; assumption.
  - unfold std at 1. rewrite variance_scaled_centered by assumption.
    apply sqrt_1.
Qed.

Lemma discounted_returns_2_1 : discounted_returns [1; 1] 1 = [2; 1].
Proof.
  unfold discounted_returns, backward_loop, loop_body; simpl.
  repeat (f_equal; try lra).
Qed.

Lemma std_2_1_nonzero : std [2; 1] <> 0.
Proof.
  unfold std. intros Hz.
  apply sqrt_eq_0 in Hz.
  - unfold variance, mean, sum in Hz. simpl in Hz. lra.
  - unfold variance, mean, sum. simpl. lra.
Qed.

Lemma normalized_returns_mean_0_variance_1_witness :
  [1; 1] <> []
  /\ std (discounted_returns [1; 1] 1) <> 0
  /\ exists out,
      compute_returns_baseline [1; 1] 1 = Returned out
      /\ mean out = 0 /\ variance out = 1 /\ std out = 1.
Proof.
  split; [discriminate|].
  split; [rewrite discounted_returns_2_1; exact std_2_1_nonzero|].
  apply (normalized_returns_mean_0_variance_1 [1; 1] 1).
  - discriminate.
  - rewrite discounted_returns_2_1. exact std_2_1_nonzero.
Defined.




Import FloatDivision.



(** Over the reals alone the guard leaves no trace: there [x / 0] is a
    number ([0]) and the centred values are [0] when the standard deviation
    is, so [normalize_returns] agrees with the always-dividing formula on
    every input.  The guard is therefore stated on float64 entries. *)
Lemma guard_invisible_over_reals (returns : list R) :
  normalize_returns returns
  = map (fun x => x / std returns) (centered returns).
Proof.
  unfold normalize_returns.
  destruct (Req_dec_T (std returns) 0) as [Hz | Hnz]; [|reflexivity].
  rewrite (zero_std_centered_zero returns Hz), Hz.
  induction (length returns) as [|n IH]; [reflexivity|].
  cbn [repeat map]. rewrite <- IH. f_equal.
  unfold Rdiv. now rewrite Rmult_0_l.
Qed.




Lemma empty_rewards_return_normally (gamma : R) :
  compute_returns_baseline [] gamma = Returned [].
Proof.
  unfold compute_returns_baseline, normalize_returns.
  destruct (Req_dec_T (std (discounted_returns [] gamma)) 0); reflexivity.
Qed.

(** C5, as the claim states it, fails: on the empty reward list the cell
    raises nothing and returns the empty array. *)
Lemma empty_rewards_not_rejected :
  compute_returns_baseline [] 1 = Returned []
  /\ forall e, compute_returns_baseline [] 1 = Raised e -> False.
Proof.
  split.
  - apply empty_rewards_return_normally.
  - intros e He. rewrite empty_rewards_return_normally in He. discriminate.
Qed.

(** C5, amended.  [compute_returns_baseline] validates nothing: on every
    reward list it returns an array and raises no error, and on the empty
    list the array it returns is empty. *)
Theorem baseline_returns_without_validation :
  (forall rewards gamma,
      exists out, compute_returns_baseline rewards gamma = Returned out)
  /\ (forall gamma, compute_returns_baseline [] gamma = Returned []).
Proof.
  split.
  - intros rewards gamma. unfold compute_returns_baseline.
    eexists. reflexivity.
  - exact empty_rewards_return_normally.
Qed.

(** ** Episode Sampler *)

Import Trainer.

Section Sampler.

Context {W : Type} {C : Collaborators W}.

Lemma steps_taken_le (n : nat) (w : W) : (steps_taken n w <= n)%nat.
Proof.
  revert w; induction n as [|n IH]; intros w; simpl.
  - lia.
  - destruct (act w) as [[[w' lp] r] d]. destruct d.
    + lia.
    + specialize (IH w'). lia.
Qed.

Lemma done_at_succ (w : W) (i : nat) :
  done_at w (S i) = done_at (fst (fst (fst (act w)))) i.
Proof.
  unfold done_at. simpl. destruct (act w) as [[[w' lp] r] d]. reflexivity.
Qed.

Lemma reward_at_succ (w : W) (i : nat) :
  reward_at w (S i) = reward_at (fst (fst (fst (act w)))) i.
Proof.
  unfold reward_at. simpl. destruct (act w) as [[[w' lp] r] d]. reflexivity.
Qed.

Lemma log_prob_at_succ (w : W) (i : nat) :
  log_prob_at w (S i) = log_prob_at (fst (fst (fst (act w)))) i.
Proof.
  unfold log_prob_at. simpl. destruct (act w) as [[[w' lp] r] d]. reflexivity.
Qed.

(** No step before the last one taken reported done. *)
Lemma steps_taken_not_done (n : nat) (w : W) (i : nat) :
  (S i < steps_taken n w)%nat -> done_at w i = false.
Proof.
  revert w i; induction n as [|n IH]; intros w i; simpl.
  - lia.
  - destruct (act w) as [[[w' lp] r] d] eqn:E. destruct d.
    + lia.
    + intros Hi. destruct i as [|i].
      * unfold done_at. simpl. now rewrite E.
      * rewrite done_at_succ, E. simpl. apply IH. lia.
Qed.

(** A loop that ran fewer iterations than allowed ended on a done step. *)
Lemma steps_taken_early_exit (n : nat) (w : W) :
  (steps_taken n w < n)%nat ->
  (0 < steps_taken n w)%nat /\ done_at w (steps_taken n w - 1) = true.
Proof.
  revert w; induction n as [|n IH]; intros w; simpl.
  - lia.
  - destruct (act w) as [[[w' lp] r] d] eqn:E. destruct d.
    + intros _. split; [lia|]. unfold done_at. simpl. now rewrite E.
    + intros Hlt. destruct (IH w') as [Hpos Hdone]; [lia|].
      split; [lia|].
      replace (S (steps_taken n w') - 1)%nat
        with (S (steps_taken n w' - 1)) by lia.
      rewrite done_at_succ, E. exact Hdone.
Qed.

(** The loop records exactly the steps it took, in order, after what the
    lists already held. *)
Lemma collect_spec (n : nat) (w : W) (log_probs rewards : list R) :
  collect n w log_probs rewards
  = (state_before w (steps_taken n w),
     log_probs ++ map (log_prob_at w) (seq 0 (steps_taken n w)),
     rewards ++ map (reward_at w) (seq 0 (steps_taken n w))).
Proof.
  revert w log_probs rewards; induction n as [|n IH];
    intros w log_probs rewards; simpl.
  - now rewrite !app_nil_r.
  - destruct (act w) as [[[w' lp] r] d] eqn:E.
    assert (Hlp : log_prob_at w 0 = lp) by (unfold log_prob_at; simpl; now rewrite E).
    assert (Hr : reward_at w 0 = r) by (unfold reward_at; simpl; now rewrite E).
    destruct d.
    + simpl. rewrite E, Hlp, Hr. reflexivity.
    + rewrite IH. simpl. rewrite E, Hlp, Hr.
      rewrite <- !seq_shift, !map_map, <- !app_assoc. simpl.
      f_equal; [f_equal|]; do 2 f_equal; apply map_ext; intros i.
      * rewrite log_prob_at_succ, E. reflexivity.
      * rewrite reward_at_succ, E. reflexivity.
Qed.

Lemma sample_episode_spec (h : Hyper) (w : W) :
  let k := steps_taken (max_episode_length h) (env_reset w) in
  sample_episode h w
  = (state_before (env_reset w) k,
     map (log_prob_at (env_reset w)) (seq 0 k),
     map (reward_at (env_reset w)) (seq 0 k)).
Proof.
  unfold sample_episode. now rewrite collect_spec.
Qed.

Lemma episode_trace_length (h : Hyper) (w : W) :
  length (episode_trace h w) = length (snd (sample_episode h w)).
Proof.
  unfold episode_trace. rewrite sample_episode_spec. simpl.
  rewrite length_combine, !length_map, length_seq. lia.
Qed.

End Sampler.

(** C4.  The trace of an episode has at most [max_episode_length] entries; it
    holds exactly the first steps of the interaction, in order; none of the
    steps before its last entry reported done; and a trace shorter than the
    cap ends on a step that reported done. *)
Theorem episode_trace_bounded_and_stops_at_done
        {W : Type} {C : Collaborators W} (h : Hyper) (w : W) :
  let trace := episode_trace h w in
  let start := env_reset w in
  (length trace <= max_episode_length h)%nat
  /\ trace = map (fun i => (log_prob_at start i, reward_at start i))
                 (seq 0 (length trace))
  /\ (forall i, (S i < length trace)%nat -> done_at start i = false)
  /\ (forall i, done_at start i = true -> (length trace <= S i)%nat)
  /\ ((length trace < max_episode_length h)%nat ->
      (0 < length trace)%nat /\ done_at start (length trace - 1) = true).
Proof.
  intros trace start. subst trace start.
  assert (Hlen : length (episode_trace h w)
                 = steps_taken (max_episode_length h) (env_reset w)).
  { rewrite episode_trace_length, sample_episode_spec. simpl.
    now rewrite length_map, length_seq. }
  rewrite Hlen.
  split; [apply steps_taken_le|].
  split.
  { unfold episode_trace. rewrite sample_episode_spec. simpl.
    generalize (seq 0 (steps_taken (max_episode_length h) (env_reset w))).
    intros l. induction l as [|i l IH]; simpl; [reflexivity|].
    now rewrite IH. }
  split; [intros i; apply steps_taken_not_done|].
  split.
  - intros i Hdone.
    destruct (Nat.le_gt_cases
                (steps_taken (max_episode_length h) (env_reset w)) (S i))
      as [Hle | Hgt]; [exact Hle|].
    rewrite (steps_taken_not_done _ _ _ Hgt) in Hdone. discriminate.
  - apply steps_taken_early_exit.
Qed.

(** The scenario of the spec: a stub that reports done after exactly ten
    steps and pays 1 per step gives a trace of ten entries and a total reward
    of 10, under the reference cap of 1000 steps. *)
Example ten_step_stub_episode :
  length (@episode_trace nat (Stub.counting 1 10) reference_hyper O) = 10%nat
  /\ sum (snd (@sample_episode nat (Stub.counting 1 10) reference_hyper O))
     = 10.
Proof.
  split.
  - reflexivity.
  - unfold sum. simpl. lra.
Qed.

(** C8.  [compute_returns_baseline] returns one entry per reward, and applied
    to the rewards of an episode it returns a sequence as long as that
    episode's trace. *)
Theorem return_sequence_as_long_as_trace
        {W : Type} {C : Collaborators W} (h : Hyper) (w : W) (gamma : R) :
  (forall rewards,
      exists returns,
        compute_returns_baseline rewards gamma = Returned returns
        /\ length returns = length rewards)
  /\ (exists returns,
         compute_returns_baseline (snd (sample_episode h w)) gamma
         = Returned returns
         /\ length returns = length (episode_trace h w)).
Proof.
  assert (Hgen : forall rewards,
             exists returns,
               compute_returns_baseline rewards gamma = Returned returns
               /\ length returns = length rewards).
  { intros rewards. unfold compute_returns_baseline.
    eexists. split; [reflexivity|].
    rewrite normalize_returns_length. apply discounted_returns_length. }
  split; [exact Hgen|].
  destruct (Hgen (snd (sample_episode h w))) as [returns [Heq Hlen]].
  exists returns. split; [exact Heq|].
  rewrite episode_trace_length. exact Hlen.
Qed.

(** ** Trainer loop *)

Section DequeWindow.

Lemma tl_skipn (m : nat) (l : list R) : tl (skipn m l) = skipn (S m) l.
Proof.
  revert l; induction m as [|m IH]; intros l.
  - destruct l; reflexivity.
  - destruct l as [|x l]; [reflexivity|]. simpl skipn at 1. rewrite IH.
    reflexivity.
Qed.

Lemma last_entries_length (l : list R) :
  length (last_entries 100 l) = Nat.min 100 (length l).
Proof.
  unfold last_entries. rewrite length_skipn. lia.
Qed.

(** The bounded window is always the tail of the full history. *)
Lemma last_entries_append (scores : list R) (x : R) :
  last_entries 100 (scores ++ [x])
  = deque_append (last_entries 100 scores) x.
Proof.
  unfold deque_append. rewrite last_entries_length.
  unfold last_entries. rewrite length_app. simpl length.
  destruct (100 <=? Nat.min 100 (length scores))%nat eqn:E.
  - apply Nat.leb_le in E.
    rewrite tl_skipn, skipn_app.
    replace (length scores + 1 - 100)%nat
      with (S (length scores - 100)) by lia.
    replace (S (length scores - 100) - length scores)%nat with O by lia.
    reflexivity.
  - apply Nat.leb_gt in E.
    replace (length scores + 1 - 100)%nat with O by lia.
    replace (length scores - 100)%nat with O by lia.
    reflexivity.
Qed.

Lemma reached_threshold_true (d : list R) :
  reached_threshold d = true <-> 495 <= mean d.
Proof.
  unfold reached_threshold. destruct (Rle_dec 495 (mean d)); split;
    intros; try assumption; try reflexivity; try discriminate; contradiction.
Qed.

End DequeWindow.

Section TrainerLoop.

Context {W : Type} {C : Collaborators W}.

Variable h : Hyper.

(** What the loop guarantees from any iteration on, given that the deque
    holds the tail of the history. *)
Lemma episode_loop_invariant (verbose : bool) (n : nat) :
  forall (w : W) (scores : list R),
    let out :=
      snd (episode_loop h verbose n w scores (last_entries 100 scores)) in
    firstn (length scores) out = scores
    /\ (length scores <= length out <= length scores + n)%nat
    /\ (verbose = false -> length out = (length scores + n)%nat)
    /\ (verbose = true ->
        forall k, (length scores < k <= length out)%nat ->
                  495 <= rolling_average (firstn k out) ->
                  k = length out)
    /\ (verbose = true -> (length out < length scores + n)%nat ->
        (length scores < length out)%nat /\ 495 <= rolling_average out).
Proof.
  induction n as [|n IH]; intros w scores.
  - simpl. rewrite firstn_all.
    repeat split; try lia; intros; lia.
  - cbn [episode_loop].
    destruct (sample_episode h w) as [[w1 log_probs] rewards].
    rewrite <- last_entries_append.
    set (scores1 := scores ++ [sum rewards]).
    assert (Hlen1 : length scores1 = S (length scores)).
    { subst scores1. rewrite length_app. simpl. lia. }
    assert (Hpre1 : firstn (length scores) scores1 = scores).
    { subst scores1. rewrite firstn_app, firstn_all, Nat.sub_diag.
      simpl. apply app_nil_r. }
    destruct verbose.
    + rewrite andb_true_r.
      destruct (reached_threshold (last_entries 100 scores1)) eqn:E.
      * apply reached_threshold_true in E. cbn [snd].
        split; [exact Hpre1|].
        split; [lia|]. split; [discriminate|].
        split; [intros _ k Hk _; lia|].
        intros _ _. split; [lia | exact E].
      * specialize (IH (update w1 log_probs rewards) scores1).
        cbv zeta in IH. destruct IH as (Hpre & Hlen & _ & Hstop & Hearly).
        set (out := snd (episode_loop h true n (update w1 log_probs rewards)
                                      scores1 (last_entries 100 scores1)))
          in *.
        split.
        { rewrite <- Hpre1 at 2. rewrite <- Hpre, firstn_firstn.
          f_equal. lia. }
        split; [lia|]. split; [discriminate|].
        split.
        { intros _ k Hk Havg.
          destruct (Nat.eq_dec k (length scores1)) as [-> | Hne].
          - rewrite Hpre in Havg.
            assert (Ht : reached_threshold (last_entries 100 scores1) = true)
              by (apply reached_threshold_true; exact Havg).
            congruence.
          - apply (Hstop eq_refl); [lia | exact Havg]. }
        { intros _ Hlt. destruct (Hearly eq_refl) as [Hgt Havg]; [lia|].
          split; [lia | exact Havg]. }
    + rewrite andb_false_r.
      specialize (IH (update w1 log_probs rewards) scores1).
      cbv zeta in IH. destruct IH as (Hpre & Hlen & Hall & _ & _).
      set (out := snd (episode_loop h false n (update w1 log_probs rewards)
                                    scores1 (last_entries 100 scores1)))
        in *.
      split.
      { rewrite <- Hpre1 at 2. rewrite <- Hpre, firstn_firstn.
        f_equal. lia. }
      split; [lia|]. split; [intros _; rewrite Hall by reflexivity; lia|].
      split; discriminate.
Qed.

(** The loop only ever appends to [scores]. *)
Lemma episode_loop_extends (verbose : bool) (n : nat) :
  forall (w : W) (scores scores_deque : list R),
  exists rest,
    snd (episode_loop h verbose n w scores scores_deque) = scores ++ rest.
Proof.
  induction n as [|n IH]; intros w scores scores_deque.
  - exists []. simpl. now rewrite app_nil_r.
  - cbn [episode_loop].
    destruct (sample_episode h w) as [[w1 log_probs] rewards].
    destruct (reached_threshold _ && verbose).
    + exists [sum rewards]. reflexivity.
    + destruct (IH (update w1 log_probs rewards) (scores ++ [sum rewards])
                   (deque_append scores_deque (sum rewards)))
        as [rest Hrest].
      exists (sum rewards :: rest). rewrite Hrest, <- app_assoc. reflexivity.
Qed.

(** The score an iteration appends is [sum(rewards)] of the episode it
    sampled. *)
Lemma episode_loop_appends_sum (verbose : bool) (n : nat) (w : W)
      (scores scores_deque : list R) :
  nth_error (snd (episode_loop h verbose (S n) w scores scores_deque))
            (length scores)
  = Some (sum (snd (sample_episode h w))).
Proof.
  cbn [episode_loop].
  destruct (sample_episode h w) as [[w1 log_probs] rewards]. cbn [snd].
  destruct (reached_threshold _ && verbose).
  - cbn [snd]. rewrite nth_error_app2, Nat.sub_diag by lia. reflexivity.
  - destruct (episode_loop_extends verbose n (update w1 log_probs rewards)
                (scores ++ [sum rewards])
                (deque_append scores_deque (sum rewards))) as [rest Hrest].
    rewrite Hrest, <- app_assoc.
    rewrite nth_error_app2, Nat.sub_diag by lia. reflexivity.
Qed.

End TrainerLoop.

(** C9.  With discount 1 the first entry of the list built by the backward
    loop of [compute_returns_baseline] is the sum of the rewards; and when
    the rewards are those of the episode an iteration of the trainer sampled,
    that is the score the iteration appends to [scores]. *)
Theorem first_return_is_episode_score
        {W : Type} {C : Collaborators W} (h : Hyper) (verbose : bool)
        (n : nat) (w : W) (scores scores_deque rewards : list R) :
  rewards <> [] ->
  nth_error (discounted_returns rewards 1) 0 = Some (sum rewards)
  /\ (snd (sample_episode h w) = rewards ->
      nth_error (snd (episode_loop h verbose (S n) w scores scores_deque))
                (length scores)
      = nth_error (discounted_returns rewards 1) 0).
Proof.
  intros Hne.
  pose proof (first_return_undiscounted rewards Hne) as Hfirst.
  split; [exact Hfirst|].
  intros Hrew. rewrite Hfirst, <- Hrew.
  apply episode_loop_appends_sum.
Qed.

(** The stub used below pays three rewards of 1 before it reports done. *)
Example three_step_stub_rewards :
  snd (@sample_episode nat (Stub.counting 1 3)
         {| number_episodes := 1; max_episode_length := 5 |} O)
  = [1; 1; 1].
Proof. reflexivity. Qed.

Lemma first_return_is_episode_score_witness :
  let h := {| number_episodes := 1; max_episode_length := 5 |} in
  [1; 1; 1] <> []
  /\ nth_error (discounted_returns [1; 1; 1] 1) 0 = Some (sum [1; 1; 1])
  /\ (snd (@sample_episode nat (Stub.counting 1 3) h O) = [1; 1; 1] ->
      nth_error (snd (@episode_loop nat (Stub.counting 1 3) h true 1 O [] []))
                (length (@nil R))
      = nth_error (discounted_returns [1; 1; 1] 1) 0).
Proof.
  cbv zeta. split; [discriminate|].
  apply (@first_return_is_episode_score nat (Stub.counting 1 3)
           {| number_episodes := 1; max_episode_length := 5 |}
           true 0 O [] [] [1; 1; 1]).
  discriminate.
Defined.

(** C2, as the claim states it, fails: launched the way the Experiment Runner
    does ([verbose=False]) on a stub that pays 500 in a one-step episode, the
    trainer runs its second episode although the rolling average after the
    first one is 500. *)
Lemma silent_run_continues_past_threshold :
  let h := {| number_episodes := 2; max_episode_length := 1 |} in
  let scores := snd (@reinforce nat (Stub.counting 500 1) h 0%Z false) in
  495 <= rolling_average (firstn 1 scores)
  /\ length scores = 2%nat.
Proof.
  cbv zeta. unfold reinforce. cbn [number_episodes episode_loop].
  unfold sample_episode. cbn.
  rewrite !andb_false_r. cbn.
  split; [|reflexivity].
  unfold rolling_average, last_entries, mean, sum. simpl. lra.
Qed.

(** C2, amended.  Called with [verbose=True] the trainer runs at most
    [number_episodes] episodes, runs no episode after one whose rolling
    average reached 495, and stops short of [number_episodes] only on such an
    episode.  Called with [verbose=False], as the Experiment Runner does, it
    always runs all [number_episodes] episodes, so every per-seed score
    sequence has that same length. *)
Theorem reinforce_stopping_rule
        {W : Type} {C : Collaborators W} (h : Hyper) (seed : Z)
        (seeds : list Z) :
  (let scores := snd (reinforce h seed true) in
   (length scores <= number_episodes h)%nat
   /\ (forall k, (1 <= k <= length scores)%nat ->
                 495 <= rolling_average (firstn k scores) ->
                 k = length scores)
   /\ ((length scores < number_episodes h)%nat ->
       495 <= rolling_average scores))
  /\ length (snd (reinforce h seed false)) = number_episodes h
  /\ (forall s, In s (all_scores h seeds) -> length s = number_episodes h).
Proof.
  unfold reinforce.
  split; [|split].
  - pose proof (episode_loop_invariant h true (number_episodes h)
                                       (initialise seed) []) as Hinv.
    cbv zeta in *. change (last_entries 100 []) with (@nil R) in Hinv.
    simpl length in Hinv.
    destruct Hinv as (_ & Hlen & _ & Hstop & Hearly).
    split; [lia|]. split.
    + intros k Hk. apply (Hstop eq_refl). lia.
    + intros Hlt. apply (Hearly eq_refl). exact Hlt.
  - pose proof (episode_loop_invariant h false (number_episodes h)
                                       (initialise seed) []) as Hinv.
    cbv zeta in Hinv. change (last_entries 100 []) with (@nil R) in Hinv.
    destruct Hinv as (_ & _ & Hall & _). apply Hall. reflexivity.
  - intros s Hin. unfold all_scores in Hin.
    apply in_map_iff in Hin. destruct Hin as [sd [<- _]].
    unfold reinforce.
    pose proof (episode_loop_invariant h false (number_episodes h)
                                       (initialise sd) []) as Hinv.
    cbv zeta in Hinv. change (last_entries 100 []) with (@nil R) in Hinv.
    destruct Hinv as (_ & _ & Hall & _). apply Hall. reflexivity.
Qed.

(** With [verbose=True] the same stub stops the same run after one episode. *)
Example verbose_run_stops_at_threshold :
  let h := {| number_episodes := 2; max_episode_length := 1 |} in
  length (snd (@reinforce nat (Stub.counting 500 1) h 0%Z true)) = 1%nat.
Proof.
  cbv zeta. unfold reinforce. cbn [number_episodes episode_loop].
  unfold sample_episode. cbn.
  assert (Hr : reached_threshold [0 + 500] = true).
  { apply reached_threshold_true. unfold mean, sum. simpl. lra. }
  rewrite Hr. reflexivity.
Qed.

(** ** Score smoothing *)

Import Smoothing.

Section MovingAverage.

Lemma cumsum_from_length (a : list R) (acc : R) :
  length (cumsum_from acc a) = length a.
Proof.
  revert acc; induction a as [|x a IH]; intros acc; simpl; congruence.
Qed.

(** Entry [t] of the cumulative sum is the sum of the first [t+1] inputs. *)
Lemma cumsum_from_nth (a : list R) (acc : R) (t : nat) :
  (t < length a)%nat ->
  nth_error (cumsum_from acc a) t = Some (acc + sum (firstn (S t) a)).
Proof.
  revert acc t; induction a as [|x a IH]; intros acc t Ht.
  - simpl in Ht. lia.
  - destruct t as [|t].
    + simpl. f_equal. unfold sum. simpl. ring.
    + simpl in Ht. cbn [cumsum_from nth_error]. rewrite IH by lia.
      f_equal. cbn [firstn]. rewrite (sum_cons x). ring.
Qed.

Lemma cumsum_nth (a : list R) (t : nat) :
  (t < length a)%nat ->
  nth_error (cumsum a) t = Some (sum (firstn (S t) a)).
Proof.
  intros Ht. unfold cumsum. rewrite cumsum_from_nth by assumption.
  f_equal. ring.
Qed.

Lemma zip_sub_length (x y : list R) :
  length (zip_sub x y) = Nat.min (length x) (length y).
Proof.
  revert y; induction x as [|a x IH]; intros [|b y]; simpl; auto.
Qed.

Lemma zip_sub_nth (x y : list R) (i : nat) (u v : R) :
  nth_error x i = Some u -> nth_error y i = Some v ->
  nth_error (zip_sub x y) i = Some (u - v).
Proof.
  revert y i; induction x as [|a x IH]; intros [|b y] [|i]; simpl;
    try discriminate.
  - intros [= ->] [= ->]. reflexivity.
  - apply IH.
Qed.

Lemma firstn_add_split (m k : nat) (a : list R) :
  firstn (m + k) a = firstn m a ++ firstn k (skipn m a).
Proof.
  revert a; induction m as [|m IH]; intros a.
  - reflexivity.
  - destruct a as [|x a].
    + simpl. now rewrite firstn_nil.
    + simpl. now rewrite IH.
Qed.

(** The two slices of the subtraction have the same length unless [n] is 0. *)
Lemma slices_same_length (n : Z) (len : nat) :
  n <> 0%Z ->
  (len - slice_bound n len)%nat = Nat.min (slice_bound (- n) len) len.
Proof.
  intros Hn. unfold slice_bound.
  destruct (Z.ltb_spec n 0), (Z.ltb_spec (- n) 0); lia.
Qed.

(** For a non-zero [n] neither the subtraction nor the slice assignment
    raises. *)
Lemma moving_average_nonzero (a : list R) (n : Z) :
  n <> 0%Z ->
  moving_average a n
  = Returned
      (map (fun x => x / IZR n)
           (firstn (slice_bound n (length a)) (cumsum a)
            ++ zip_sub (skipn (slice_bound n (length a)) (cumsum a))
                       (firstn (slice_bound (- n) (length a)) (cumsum a)))).
Proof.
  intros Hn. unfold moving_average, array_sub, assign_from, slice_from, slice_to.
  assert (Hc : length (cumsum a) = length a) by apply cumsum_from_length.
  rewrite Hc.
  pose proof (slices_same_length n (length a) Hn) as Hs.
  assert (Hx : length (skipn (slice_bound n (length a)) (cumsum a))
               = length (firstn (slice_bound (- n) (length a)) (cumsum a))).
  { rewrite length_skipn, length_firstn, Hc. exact Hs. }
  rewrite Hx, Nat.eqb_refl. cbn [bind].
  rewrite zip_sub_length, <- Hx, Nat.min_id, length_skipn, Hc, Nat.eqb_refl.
  reflexivity.
Qed.

Lemma moving_average_length (a : list R) (n : Z) :
  n <> 0%Z ->
  exists out, moving_average a n = Returned out /\ length out = length a.
Proof.
  intros Hn. rewrite moving_average_nonzero by assumption.
  eexists. split; [reflexivity|].
  assert (Hc : length (cumsum a) = length a) by apply cumsum_from_length.
  pose proof (slices_same_length n (length a) Hn) as Hs.
  rewrite length_map, length_app, zip_sub_length, length_skipn,
    !length_firstn, Hc.
  lia.
Qed.

(** Entries of the result for a positive window [n]: a cumulative sum over
    [n] below index [n], a difference of two cumulative sums over [n] from
    index [n] on. *)
Lemma moving_average_entry (a : list R) (n : Z) (t : nat) :
  (1 <= n)%Z -> (t < length a)%nat ->
  exists out,
    moving_average a n = Returned out
    /\ nth_error out t
       = Some ((if (t <? Z.to_nat n)%nat
                then sum (firstn (S t) a)
                else sum (firstn (S t) a) - sum (firstn (S t - Z.to_nat n) a))
               / IZR n).
Proof.
  intros Hn Ht.
  rewrite moving_average_nonzero by lia.
  eexists. split; [reflexivity|].
  assert (Hc : length (cumsum a) = length a) by apply cumsum_from_length.
  assert (Hk : slice_bound n (length a) = Nat.min (Z.to_nat n) (length a)).
  { unfold slice_bound. destruct (Z.ltb_spec n 0); lia. }
  assert (Hk2 : slice_bound (- n) (length a) = (length a - Z.to_nat n)%nat).
  { unfold slice_bound. destruct (Z.ltb_spec (- n) 0); lia. }
  rewrite Hk, Hk2, nth_error_map.
  destruct (Nat.ltb_spec t (Z.to_nat n)) as [Hlt | Hge].
  - rewrite nth_error_app1 by (rewrite length_firstn, Hc; lia).
    rewrite nth_error_firstn.
    destruct (Nat.ltb_spec t (Nat.min (Z.to_nat n) (length a))); [|lia].
    rewrite cumsum_nth by assumption. reflexivity.
  - rewrite nth_error_app2 by (rewrite length_firstn, Hc; lia).
    rewrite length_firstn, Hc.
    replace (Nat.min (Nat.min (Z.to_nat n) (length a)) (length a))
      with (Z.to_nat n) by lia.
    replace (Nat.min (Z.to_nat n) (length a)) with (Z.to_nat n) by lia.
    rewrite (zip_sub_nth _ _ _ (sum (firstn (S t) a))
                         (sum (firstn (S t - Z.to_nat n) a))).
    + reflexivity.
    + rewrite nth_error_skipn.
      replace (Z.to_nat n + (t - Z.to_nat n))%nat with t by lia.
      apply cumsum_nth. assumption.
    + rewrite nth_error_firstn.
      destruct (Nat.ltb_spec (t - Z.to_nat n) (length a - Z.to_nat n));
        [|lia].
      rewrite cumsum_nth by lia. do 2 f_equal. f_equal. lia.
Qed.

End MovingAverage.

(** C6.  For a window [n >= 1] no longer than the input, every entry of
    [moving_average(a, n)] at an index [t >= n-1] is the arithmetic mean of
    the [n] inputs [a[t-n+1..t]]. *)
Theorem moving_average_trailing_mean (a : list R) (n : Z) (t : nat) :
  (1 <= n)%Z -> (n <= Z.of_nat (length a))%Z ->
  (n - 1 <= Z.of_nat t)%Z -> (t < length a)%nat ->
  exists out,
    moving_average a n = Returned out
    /\ length (window a (Z.to_nat n) t) = Z.to_nat n
    /\ nth_error out t = Some (mean (window a (Z.to_nat n) t)).
Proof.
  intros Hn Hlen Hlo Hhi.
  destruct (moving_average_entry a n t Hn Hhi) as [out [Hout Hnth]].
  exists out. split; [exact Hout|].
  assert (Hw : length (window a (Z.to_nat n) t) = Z.to_nat n).
  { unfold window. rewrite length_firstn, length_skipn. lia. }
  split; [exact Hw|].
  rewrite Hnth. f_equal. unfold mean. rewrite Hw.
  rewrite INR_IZR_INZ, Z2Nat.id by lia.
  f_equal. unfold window.
  destruct (Nat.ltb_spec t (Z.to_nat n)) as [Hlt | Hge].
  - replace (t + 1 - Z.to_nat n)%nat with O by lia.
    replace (Z.to_nat n) with (S t) by lia. reflexivity.
  - replace (S t) with ((t + 1 - Z.to_nat n) + Z.to_nat n)%nat at 1 by lia.
    rewrite firstn_add_split, sum_app.
    replace (S t - Z.to_nat n)%nat with (t + 1 - Z.to_nat n)%nat by lia.
    ring.
Qed.

Lemma moving_average_trailing_mean_witness :
  (1 <= 2)%Z /\ (2 <= Z.of_nat (length [1; 2; 3; 4]))%Z
  /\ (2 - 1 <= Z.of_nat 2)%Z /\ (2 < length [1; 2; 3; 4])%nat
  /\ exists out,
      moving_average [1; 2; 3; 4] 2 = Returned out
      /\ length (window [1; 2; 3; 4] (Z.to_nat 2) 2) = Z.to_nat 2
      /\ nth_error out 2 = Some (mean (window [1; 2; 3; 4] (Z.to_nat 2) 2)).
Proof.
  split; [lia|]. split; [simpl; lia|]. split; [simpl; lia|].
  split; [simpl; lia|].
  apply (moving_average_trailing_mean [1; 2; 3; 4] 2 2); simpl; lia.
Defined.

(** The smoothing of [1,2,3,4] with window 2, entry by entry. *)
Example moving_average_1234 :
  moving_average [1; 2; 3; 4] 2 = Returned [1 / 2; 3 / 2; 5 / 2; 7 / 2].
Proof.
  unfold moving_average, cumsum, array_sub, assign_from, slice_from,
    slice_to, slice_bound.
  simpl.
  repeat (f_equal; try lra).
Qed.

(** C10, as the claim states it, fails at [n = 0], which every input
    satisfies [len(a) >= n] for: [ret[:-0]] is the empty slice, and
    subtracting it from the two entries of [ret[0:]] is a shape error. *)
Lemma moving_average_window_0_raises :
  (0 <= Z.of_nat (length [1; 2]))%Z
  /\ moving_average [1; 2] 0 = Raised ValueError.
Proof.
  split; [simpl; lia | reflexivity].
Qed.

(** C10, amended.  For every [n <= len(a)] other than 0 (or with [a] empty)
    [moving_average(a, n)] returns a sequence as long as [a], and each entry
    at an index [t < n-1] is the prefix sum [a[0]+...+a[t]] divided by the
    full window size [n]. *)
Theorem moving_average_length_and_warm_up (a : list R) (n : Z) :
  n <> 0%Z \/ a = [] ->
  (n <= Z.of_nat (length a))%Z ->
  exists out,
    moving_average a n = Returned out
    /\ length out = length a
    /\ forall t, (Z.of_nat t < n - 1)%Z ->
                 nth_error out t = Some (sum (firstn (S t) a) / IZR n).
Proof.
  intros [Hn | ->] Hlen.
  - destruct (moving_average_length a n Hn) as [out [Hout Hl]].
    exists out. split; [exact Hout|]. split; [exact Hl|].
    intros t Ht.
    destruct (moving_average_entry a n t) as [out' [Hout' Hnth]]; [lia..|].
    rewrite Hout in Hout'. injection Hout' as <-.
    rewrite Hnth.
    destruct (Nat.ltb_spec t (Z.to_nat n)); [reflexivity | lia].
  - simpl in Hlen. exists []. split; [|split].
    + unfold moving_average, array_sub, assign_from, slice_from, slice_to.
      change (cumsum []) with (@nil R).
      rewrite skipn_nil, !firstn_nil. reflexivity.
    + reflexivity.
    + intros t Ht. lia.
Qed.

Lemma moving_average_length_and_warm_up_witness :
  (3%Z <> 0%Z \/ [1; 2; 3] = [])
  /\ (3 <= Z.of_nat (length [1; 2; 3]))%Z
  /\ exists out,
      moving_average [1; 2; 3] 3 = Returned out
      /\ length out = length [1; 2; 3]
      /\ forall t, (Z.of_nat t < 3 - 1)%Z ->
                   nth_error out t
                   = Some (sum (firstn (S t) [1; 2; 3]) / IZR 3).
Proof.
  split; [left; lia|]. split; [simpl; lia|].
  apply (moving_average_length_and_warm_up [1; 2; 3] 3);
    [left; lia | simpl; lia].
Defined.

(** * Further properties of the return loop *)

Section ReturnLoopFacts.

Variable gamma : R.

Lemma returns_rec_skipn (rewards : list R) (t : nat) :
  skipn t (returns_rec rewards gamma) = returns_rec (skipn t rewards) gamma.
Proof.
  revert rewards; induction t as [|t IH]; intros rewards.
  - reflexivity.
  - destruct rewards as [|r rs]; [reflexivity|]. simpl. apply IH.
Qed.

Lemma sum_map_scale_l (c : R) (f : nat -> R) (l : list nat) :
  sum (map (fun k => c * f k) l) = c * sum (map f l).
Proof.
  induction l as [|k l IH]; simpl.
  - rewrite sum_nil. ring.
  - rewrite !sum_cons, IH. ring.
Qed.

(** The head of the returns is the discounted sum of all the rewards. *)
Lemma returns_rec_head (rewards : list R) :
  hd 0 (returns_rec rewards gamma)
  = sum (map (fun k => gamma ^ k * nth k rewards 0)
             (seq 0 (length rewards))).
Proof.
  induction rewards as [|r rs IH].
  - reflexivity.
  - cbn [returns_rec hd length]. rewrite IH.
    rewrite <- cons_seq, <- seq_shift.
    cbn [map]. rewrite map_map, sum_cons.
    rewrite <- sum_map_scale_l. cbn [nth pow].
    rewrite Rmult_1_l. f_equal. f_equal.
    apply map_ext. intros k. ring.
Qed.

Lemma skipn_repeat_const (c : R) (n t : nat) :
  skipn t (repeat c n) = repeat c (n - t).
Proof.
  revert n; induction t as [|t IH]; intros n.
  - now rewrite Nat.sub_0_r.
  - destruct n as [|n]; [reflexivity|]. simpl. apply IH.
Qed.

Lemma returns_rec_map_scale (c : R) (rewards : list R) :
  returns_rec (map (fun r => c * r) rewards) gamma
  = map (fun g => c * g) (returns_rec rewards gamma).
Proof.
  induction rewards as [|r rs IH]; [reflexivity|].
  cbn [map returns_rec]. rewrite IH. f_equal.
  destruct (returns_rec rs gamma) as [|g G]; simpl; ring.
Qed.

End ReturnLoopFacts.

(** X1.  Causality of the backward loop: the returns from index [t] on are
    the returns of the rewards from index [t] on; earlier rewards do not
    enter them. *)
Theorem returns_ignore_earlier_rewards (rewards : list R) (gamma : R)
        (t : nat) :
  skipn t (discounted_returns rewards gamma)
  = discounted_returns (skipn t rewards) gamma.
Proof.
  rewrite !discounted_returns_rec. apply returns_rec_skipn.
Qed.

(** X2.  Closed form of the loop: entry [t] of the returns is
    [sum over k of gamma^k * r_(t+k)], the sum running to the end of the
    episode. *)
Theorem returns_closed_form (rewards : list R) (gamma : R) (t : nat) :
  (t < length rewards)%nat ->
  nth_error (discounted_returns rewards gamma) t
  = Some (sum (map (fun k => gamma ^ k * nth (t + k) rewards 0)
                   (seq 0 (length rewards - t)))).
Proof.
  intros Ht. rewrite discounted_returns_rec.
  rewrite <- (Nat.add_0_r t) at 1.
  rewrite <- nth_error_skipn, returns_rec_skipn.
  assert (Hne : (0 < length (skipn t rewards))%nat)
    by (rewrite length_skipn; lia).
  pose proof (returns_rec_head gamma (skipn t rewards)) as Hhd.
  rewrite length_skipn in Hhd.
  rewrite (map_ext (fun k => gamma ^ k * nth k (skipn t rewards) 0)
                   (fun k => gamma ^ k * nth (t + k) rewards 0)) in Hhd
    by (intros k; now rewrite nth_skipn).
  rewrite <- Hhd.
  destruct (skipn t rewards) as [|r rs]; [simpl in Hne; lia|].
  reflexivity.
Qed.

Lemma returns_closed_form_witness :
  (1 < length [1; 2; 3])%nat
  /\ nth_error (discounted_returns [1; 2; 3] (1 / 2)) 1
     = Some (sum (map (fun k => (1 / 2) ^ k * nth (1 + k) [1; 2; 3] 0)
                      (seq 0 (length [1; 2; 3] - 1)))).
Proof.
  split; [simpl; lia|].
  apply (returns_closed_form [1; 2; 3] (1 / 2) 1). simpl. lia.
Defined.

(** X4.  Constant rewards without discounting: entry [t] of the returns of
    [n] rewards [c] is [(n - t) * c]. *)
Theorem constant_rewards_returns (c : R) (n t : nat) :
  nth t (discounted_returns (repeat c n) 1) 0 = INR (n - t) * c.
Proof.
  rewrite discounted_returns_rec.
  rewrite <- (Nat.add_0_r t) at 1.
  rewrite <- nth_skipn, returns_rec_skipn, skipn_repeat_const.
  generalize (n - t)%nat. clear n t. intros n.
  rewrite <- hd_nth_0.
  induction n as [|n IH].
  - simpl. ring.
  - cbn [repeat returns_rec hd]. rewrite IH, S_INR. ring.
Qed.

(** X5.  Scaling every reward by [c] scales every return by [c]. *)
Theorem scaled_rewards_scale_returns (c gamma : R) (rewards : list R) :
  discounted_returns (map (fun r => c * r) rewards) gamma
  = map (fun g => c * g) (discounted_returns rewards gamma).
Proof.
  rewrite !discounted_returns_rec. apply returns_rec_map_scale.
Qed.

Lemma returns_rec_bounded (gamma M : R) (rewards : list R) :
  0 <= gamma < 1 -> 0 <= M ->
  (forall r, In r rewards -> - M <= r <= M) ->
  forall g, In g (returns_rec rewards gamma) ->
            - (M / (1 - gamma)) <= g <= M / (1 - gamma).
Proof.
  intros Hg HM.
  set (B := M / (1 - gamma)).
  assert (HB : B * (1 - gamma) = M) by (unfold B; field; lra).
  assert (HB0 : 0 <= B).
  { unfold B. apply Rmult_le_pos; [exact HM|].
    apply Rlt_le, Rinv_0_lt_compat. lra. }
  induction rewards as [|r rs IH]; intros Hr g Hin.
  - contradiction.
  - cbn [returns_rec] in Hin.
    assert (Hrs : forall g', In g' (returns_rec rs gamma) ->
                             - B <= g' <= B).
    { apply IH. intros r' Hr'. apply Hr. now right. }
    destruct Hin as [<- | Hin]; [|now apply Hrs].
    assert (Hhd : - B <= hd 0 (returns_rec rs gamma) <= B).
    { destruct (returns_rec rs gamma) as [|g0 G]; simpl.
      - lra.
      - apply Hrs. now left. }
    specialize (Hr r (or_introl eq_refl)).
    nra.
Qed.

(** X3.  With a discount in [0,1) and rewards bounded by [M] in absolute
    value, every return is bounded by [M / (1 - gamma)]. *)
Theorem returns_geometric_bound (gamma M : R) (rewards : list R) :
  0 <= gamma < 1 -> 0 <= M ->
  (forall r, In r rewards -> - M <= r <= M) ->
  forall g, In g (discounted_returns rewards gamma) ->
            - (M / (1 - gamma)) <= g <= M / (1 - gamma).
Proof.
  intros Hg HM Hr g Hin. rewrite discounted_returns_rec in Hin.
  exact (returns_rec_bounded gamma M rewards Hg HM Hr g Hin).
Qed.

Lemma returns_geometric_bound_witness :
  0 <= 1 / 2 < 1 /\ 0 <= 1
  /\ (forall r, In r [1; 1; 1] -> - 1 <= r <= 1)
  /\ (forall g, In g (discounted_returns [1; 1; 1] (1 / 2)) ->
                - (1 / (1 - 1 / 2)) <= g <= 1 / (1 - 1 / 2)).
Proof.
  assert (Hg : 0 <= 1 / 2 < 1) by lra.
  assert (HM : 0 <= 1) by lra.
  assert (Hr : forall r, In r [1; 1; 1] -> - 1 <= r <= 1).
  { intros r [<- | [<- | [<- | []]]]; lra. }
  split; [exact Hg|]. split; [exact HM|]. split; [exact Hr|].
  exact (returns_geometric_bound (1 / 2) 1 [1; 1; 1] Hg HM Hr).
Defined.

(** * Further properties of the sampler and the trainer *)

Section SamplerFacts.

Context {W : Type} {C : Collaborators W}.

(** The loop leaves exactly at the first done step. *)
Lemma steps_taken_first_done (n : nat) (w : W) (i : nat) :
  (i < n)%nat -> done_at w i = true ->
  (forall j, (j < i)%nat -> done_at w j = false) ->
  steps_taken n w = S i.
Proof.
  revert w i; induction n as [|n IH]; intros w i Hi Hdone Hbefore.
  - lia.
  - simpl. destruct (act w) as [[[w' lp] r] d] eqn:E.
    destruct i as [|i].
    + unfold done_at in Hdone. simpl in Hdone. rewrite E in Hdone.
      now rewrite Hdone.
    + assert (Hd : d = false).
      { specialize (Hbefore O (Nat.lt_0_succ i)).
        unfold done_at in Hbefore. simpl in Hbefore.
        now rewrite E in Hbefore. }
      rewrite Hd. f_equal. apply IH.
      * lia.
      * rewrite done_at_succ, E in Hdone. exact Hdone.
      * intros j Hj. specialize (Hbefore (S j) (proj1 (Nat.succ_lt_mono j i) Hj)).
        rewrite done_at_succ, E in Hbefore. exact Hbefore.
Qed.

(** Without a done step the loop uses every iteration it is allowed. *)
Lemma steps_taken_no_done (n : nat) (w : W) :
  (forall j, (j < n)%nat -> done_at w j = false) -> steps_taken n w = n.
Proof.
  intros Hnone.
  destruct (Nat.eq_dec (steps_taken n w) n) as [Heq | Hne]; [exact Heq|].
  pose proof (steps_taken_le n w) as Hle.
  destruct (steps_taken_early_exit n w) as [Hpos Hdone]; [lia|].
  rewrite Hnone in Hdone by lia. discriminate.
Qed.

Lemma episode_trace_steps (h : Hyper) (w : W) :
  length (episode_trace h w)
  = steps_taken (max_episode_length h) (env_reset w).
Proof.
  rewrite episode_trace_length, sample_episode_spec. simpl.
  now rewrite length_map, length_seq.
Qed.

End SamplerFacts.

(** X10.  The sampler stops exactly at the first done step: when step [i],
    below the cap, is the first to report done, the trace has [i+1]
    entries. *)
Theorem episode_trace_ends_at_first_done
        {W : Type} {C : Collaborators W} (h : Hyper) (w : W) (i : nat) :
  (i < max_episode_length h)%nat ->
  done_at (env_reset w) i = true ->
  (forall j, (j < i)%nat -> done_at (env_reset w) j = false) ->
  length (episode_trace h w) = S i.
Proof.
  intros Hi Hdone Hbefore. rewrite episode_trace_steps.
  apply steps_taken_first_done; assumption.
Qed.

Lemma episode_trace_ends_at_first_done_witness :
  (9 < max_episode_length reference_hyper)%nat
  /\ @done_at nat (Stub.counting 1 10)
               (@env_reset nat (Stub.counting 1 10) O) 9 = true
  /\ (forall j, (j < 9)%nat ->
                @done_at nat (Stub.counting 1 10)
                         (@env_reset nat (Stub.counting 1 10) O) j = false)
  /\ length (@episode_trace nat (Stub.counting 1 10) reference_hyper O)
     = 10%nat.
Proof.
  assert (Hi : (9 < max_episode_length reference_hyper)%nat)
    by (simpl; lia).
  assert (Hbefore : forall j, (j < 9)%nat ->
             @done_at nat (Stub.counting 1 10)
                      (@env_reset nat (Stub.counting 1 10) O) j = false).
  { intros j Hj. do 9 (destruct j as [|j]; [reflexivity|]). lia. }
  split; [exact Hi|]. split; [reflexivity|]. split; [exact Hbefore|].
  exact (@episode_trace_ends_at_first_done nat (Stub.counting 1 10)
           reference_hyper O 9 Hi eq_refl Hbefore).
Defined.

(** X11.  An episode in which no step below the cap reports done has exactly
    [max_episode_length] entries. *)
Theorem episode_trace_fills_cap_without_done
        {W : Type} {C : Collaborators W} (h : Hyper) (w : W) :
  (forall j, (j < max_episode_length h)%nat ->
             done_at (env_reset w) j = false) ->
  length (episode_trace h w) = max_episode_length h.
Proof.
  intros Hnone. rewrite episode_trace_steps.
  apply steps_taken_no_done. exact Hnone.
Qed.

Lemma episode_trace_fills_cap_without_done_witness :
  let h := {| number_episodes := 1; max_episode_length := 5 |} in
  (forall j, (j < max_episode_length h)%nat ->
             @done_at nat (Stub.counting 1 10)
                      (@env_reset nat (Stub.counting 1 10) O) j = false)
  /\ length (@episode_trace nat (Stub.counting 1 10) h O) = 5%nat.
Proof.
  cbv zeta.
  assert (Hnone : forall j,
             (j < max_episode_length
                    {| number_episodes := 1; max_episode_length := 5 |})%nat ->
             @done_at nat (Stub.counting 1 10)
                      (@env_reset nat (Stub.counting 1 10) O) j = false).
  { intros j Hj. simpl in Hj.
    do 5 (destruct j as [|j]; [reflexivity|]). lia. }
  split; [exact Hnone|].
  exact (@episode_trace_fills_cap_without_done nat (Stub.counting 1 10)
           {| number_episodes := 1; max_episode_length := 5 |} O Hnone).
Defined.

(** X12.  The sampler steps the environment once per recorded pair and not
    once more: the state it hands back is the state reached after as many
    steps as the trace has entries. *)
Theorem sampler_steps_once_per_entry
        {W : Type} {C : Collaborators W} (h : Hyper) (w : W) :
  fst (fst (sample_episode h w))
  = state_before (env_reset w) (length (episode_trace h w)).
Proof.
  rewrite episode_trace_steps, sample_episode_spec. reflexivity.
Qed.

Section TrainerFacts.

Context {W : Type} {C : Collaborators W}.

Variable h : Hyper.

Lemma in_skipn_in (n : nat) (l : list R) (x : R) :
  In x (skipn n l) -> In x l.
Proof.
  intros Hin. rewrite <- (firstn_skipn n l). apply in_or_app. now right.
Qed.

Lemma sum_le_bound (B : R) (l : list R) :
  (forall x, In x l -> x <= B) -> sum l <= INR (length l) * B.
Proof.
  induction l as [|y l IH]; intros Hall.
  - rewrite sum_nil. simpl. lra.
  - rewrite sum_cons. change (length (y :: l)) with (S (length l)).
    rewrite S_INR.
    assert (Hy : y <= B) by (apply Hall; now left).
    assert (Hl : sum l <= INR (length l) * B).
    { apply IH. intros x Hx. apply Hall. now right. }
    lra.
Qed.

Lemma mean_le_bound (B : R) (l : list R) :
  l <> [] -> (forall x, In x l -> x <= B) -> mean l <= B.
Proof.
  intros Hne Hall. unfold mean.
  assert (Hn : 0 < INR (length l)).
  { apply lt_0_INR. destruct l; [congruence | simpl; lia]. }
  pose proof (sum_le_bound B l Hall) as Hs.
  apply (Rmult_le_reg_r (INR (length l))); [exact Hn|].
  unfold Rdiv. rewrite Rmult_assoc, Rinv_l by lra. lra.
Qed.

(** A score is at most the cap times the largest reward. *)
Lemma episode_score_bound (rmax : R) (w : W) :
  (forall w', snd (fst (act w')) <= rmax) -> 0 <= rmax ->
  sum (snd (sample_episode h w)) <= INR (max_episode_length h) * rmax.
Proof.
  intros Hr Hpos. rewrite sample_episode_spec. cbn [snd].
  set (k := steps_taken (max_episode_length h) (env_reset w)).
  assert (Hk : (k <= max_episode_length h)%nat) by apply steps_taken_le.
  apply Rle_trans with (INR k * rmax).
  - replace k with (length (map (reward_at (env_reset w)) (seq 0 k))) at 2
      by (now rewrite length_map, length_seq).
    apply sum_le_bound. intros x Hx.
    apply in_map_iff in Hx. destruct Hx as [i [<- _]].
    unfold reward_at.
    specialize (Hr (state_before (env_reset w) i)).
    destruct (act (state_before (env_reset w) i)) as [[[w' lp] r] d].
    exact Hr.
  - apply Rmult_le_compat_r; [exact Hpos|]. apply le_INR. exact Hk.
Qed.

Lemma episode_loop_scores_bounded (B : R) (verbose : bool) (n : nat) :
  (forall w, sum (snd (sample_episode h w)) <= B) ->
  forall (w : W) (scores scores_deque : list R),
    (forall s, In s scores -> s <= B) ->
    forall s, In s (snd (episode_loop h verbose n w scores scores_deque)) ->
              s <= B.
Proof.
  intros Hep. induction n as [|n IH]; intros w scores scores_deque Hall.
  - simpl. exact Hall.
  - cbn [episode_loop]. specialize (Hep w).
    destruct (sample_episode h w) as [[w1 log_probs] rewards].
    cbn [snd] in Hep.
    assert (Hall' : forall s, In s (scores ++ [sum rewards]) -> s <= B).
    { intros s Hs. apply in_app_or in Hs. destruct Hs as [Hs | [<- | []]].
      - now apply Hall.
      - exact Hep. }
    destruct (reached_threshold _ && verbose).
    + exact Hall'.
    + apply IH. exact Hall'.
Qed.

(** The scores of a verbose run are the first scores of the silent run. *)
Lemma verbose_prefix_of_silent (n : nat) :
  forall (w : W) (scores scores_deque : list R),
  exists k,
    snd (episode_loop h true n w scores scores_deque)
    = firstn k (snd (episode_loop h false n w scores scores_deque)).
Proof.
  induction n as [|n IH]; intros w scores scores_deque.
  - exists (length scores). simpl. now rewrite firstn_all.
  - cbn [episode_loop].
    destruct (sample_episode h w) as [[w1 log_probs] rewards].
    rewrite andb_true_r, andb_false_r.
    destruct (reached_threshold _).
    + destruct (episode_loop_extends h false n (update w1 log_probs rewards)
                  (scores ++ [sum rewards])
                  (deque_append scores_deque (sum rewards)))
        as [rest Hrest].
      exists (length (scores ++ [sum rewards])).
      rewrite Hrest, firstn_app, firstn_all, Nat.sub_diag. simpl.
      now rewrite app_nil_r.
    + apply IH.
Qed.

End TrainerFacts.

(** X6.  The deque of the trainer is a sliding window: after any sequence of
    appends to an empty [deque(maxlen=100)] it holds the most recent (up to)
    100 values, in order, and never more than 100. *)
Theorem deque_holds_most_recent_100 (xs : list R) :
  fold_left deque_append xs [] = last_entries 100 xs
  /\ (length (fold_left deque_append xs []) <= 100)%nat.
Proof.
  assert (Heq : fold_left deque_append xs [] = last_entries 100 xs).
  { induction xs as [|x xs IH] using rev_ind.
    - reflexivity.
    - rewrite fold_left_app. simpl. rewrite IH.
      symmetry. apply last_entries_append. }
  split; [exact Heq|].
  rewrite Heq, last_entries_length. lia.
Qed.

(** X7.  The stopping rule does not wait for 100 episodes: in a verbose run
    of at least one episode whose first episode already scores 495 or more,
    that episode is the only one run. *)
Theorem first_episode_can_end_run
        {W : Type} {C : Collaborators W} (h : Hyper) (seed : Z) :
  (0 < number_episodes h)%nat ->
  495 <= sum (snd (sample_episode h (initialise seed))) ->
  snd (reinforce h seed true)
  = [sum (snd (sample_episode h (initialise seed)))].
Proof.
  intros Hn Hscore. unfold reinforce.
  destruct (number_episodes h) as [|n]; [lia|].
  cbn [episode_loop].
  destruct (sample_episode h (initialise seed)) as [[w1 log_probs] rewards].
  cbn [snd] in Hscore |- *.
  assert (Hr : reached_threshold (deque_append [] (sum rewards)) = true).
  { apply reached_threshold_true.
    unfold deque_append, mean. simpl. rewrite sum_cons, sum_nil.
    replace ((sum rewards + 0) / 1) with (sum rewards) by field.
    exact Hscore. }
  rewrite Hr. reflexivity.
Qed.

Lemma first_episode_can_end_run_witness :
  let h := {| number_episodes := 2; max_episode_length := 1 |} in
  (0 < number_episodes h)%nat
  /\ 495 <= sum (snd (@sample_episode nat (Stub.counting 500 1) h
                                      (@initialise nat (Stub.counting 500 1)
                                                   0%Z)))
  /\ snd (@reinforce nat (Stub.counting 500 1) h 0%Z true)
     = [sum (snd (@sample_episode nat (Stub.counting 500 1) h
                                  (@initialise nat (Stub.counting 500 1)
                                               0%Z)))].
Proof.
  cbv zeta.
  assert (Hn : (0 < number_episodes
                      {| number_episodes := 2; max_episode_length := 1 |})%nat)
    by (simpl; lia).
  assert (Hs : 495 <= sum (snd (@sample_episode nat (Stub.counting 500 1)
                 {| number_episodes := 2; max_episode_length := 1 |}
                 (@initialise nat (Stub.counting 500 1) 0%Z)))).
  { unfold sum. simpl. lra. }
  split; [exact Hn|]. split; [exact Hs|].
  exact (@first_episode_can_end_run nat (Stub.counting 500 1)
           {| number_episodes := 2; max_episode_length := 1 |} 0%Z Hn Hs).
Defined.

(** X8.  Verbosity changes when a run stops and nothing else: the scores of
    [reinforce(seed, verbose=True)] are an initial segment of the scores of
    [reinforce(seed, verbose=False)]. *)
Theorem verbose_scores_prefix_of_silent_scores
        {W : Type} {C : Collaborators W} (h : Hyper) (seed : Z) :
  exists k,
    snd (reinforce h seed true) = firstn k (snd (reinforce h seed false)).
Proof.
  unfold reinforce. apply verbose_prefix_of_silent.
Qed.

(** X9.  When no reward exceeds [rmax >= 0] and
    [max_episode_length * rmax < 495], no rolling average can reach the
    threshold, and a verbose run completes all [number_episodes] episodes. *)
Theorem threshold_out_of_reach_for_short_episodes
        {W : Type} {C : Collaborators W} (h : Hyper) (seed : Z) (rmax : R) :
  (forall w, snd (fst (act w)) <= rmax) ->
  0 <= rmax ->
  INR (max_episode_length h) * rmax < 495 ->
  length (snd (reinforce h seed true)) = number_episodes h.
Proof.
  intros Hr Hpos Hcap. unfold reinforce.
  set (B := INR (max_episode_length h) * rmax) in *.
  pose proof (episode_loop_invariant h true (number_episodes h)
                                     (initialise seed) []) as Hinv.
  cbv zeta in Hinv. change (last_entries 100 []) with (@nil R) in Hinv.
  simpl length in Hinv.
  destruct Hinv as (_ & Hlen & _ & _ & Hearly).
  set (out := snd (episode_loop h true (number_episodes h)
                                (initialise seed) [] [])) in *.
  destruct (Nat.eq_dec (length out) (number_episodes h)) as [Heq | Hne];
    [exact Heq|].
  exfalso.
  destruct (Hearly eq_refl) as [Hout Havg]; [lia|].
  assert (Hall : forall s, In s out -> s <= B).
  { apply (episode_loop_scores_bounded h B true (number_episodes h)).
    - intros w. apply episode_score_bound; assumption.
    - intros s []. }
  assert (Hmean : rolling_average out <= B).
  { unfold rolling_average. apply mean_le_bound.
    - intros Hnil. apply (f_equal (@length R)) in Hnil.
      rewrite last_entries_length in Hnil. cbn [length] in Hnil. lia.
    - intros x Hx. apply Hall. unfold last_entries in Hx.
      eapply in_skipn_in. exact Hx. }
  lra.
Qed.

Lemma threshold_out_of_reach_for_short_episodes_witness :
  let h := {| number_episodes := 3; max_episode_length := 10 |} in
  (forall w, snd (fst (@act nat (Stub.counting 1 10) w)) <= 1)
  /\ 0 <= 1
  /\ INR (max_episode_length h) * 1 < 495
  /\ length (snd (@reinforce nat (Stub.counting 1 10) h 0%Z true))
     = number_episodes h.
Proof.
  cbv zeta.
  assert (Hr : forall w, snd (fst (@act nat (Stub.counting 1 10) w)) <= 1)
    by (intros w; simpl; lra).
  assert (Hpos : 0 <= 1) by lra.
  assert (Hcap : INR (max_episode_length
                        {| number_episodes := 3; max_episode_length := 10 |})
                 * 1 < 495)
    by (simpl; lra).
  split; [exact Hr|]. split; [exact Hpos|]. split; [exact Hcap|].
  exact (@threshold_out_of_reach_for_short_episodes nat (Stub.counting 1 10)
           {| number_episodes := 3; max_episode_length := 10 |} 0%Z 1
           Hr Hpos Hcap).
Defined.

(** * Further properties of the smoothing *)

Section MovingAverageFacts.

Lemma slice_bound_zero (len : nat) : slice_bound 0 len = O.
Proof.
  unfold slice_bound. simpl. lia.
Qed.

(** With [n = 0] and a non-empty input the slice subtraction or the slice
    assignment fails on the shapes. *)
Lemma moving_average_zero_window (x : R) (a : list R) :
  moving_average (x :: a) 0 = Raised ValueError.
Proof.
  unfold moving_average, array_sub, assign_from, slice_from, slice_to.
  change (- 0)%Z with 0%Z. rewrite slice_bound_zero.
  unfold cumsum. cbn [cumsum_from skipn firstn length].
  rewrite cumsum_from_length.
  destruct a as [|y a]; reflexivity.
Qed.

Lemma moving_average_empty (n : Z) : moving_average [] n = Returned [].
Proof.
  unfold moving_average, array_sub, assign_from, slice_from, slice_to.
  change (cumsum []) with (@nil R).
  rewrite skipn_nil, !firstn_nil. reflexivity.
Qed.

Lemma sum_ge_bound (B : R) (l : list R) :
  (forall x, In x l -> B <= x) -> INR (length l) * B <= sum l.
Proof.
  induction l as [|y l IH]; intros Hall.
  - rewrite sum_nil. simpl. lra.
  - rewrite sum_cons. change (length (y :: l)) with (S (length l)).
    rewrite S_INR.
    assert (Hy : B <= y) by (apply Hall; now left).
    assert (Hl : INR (length l) * B <= sum l).
    { apply IH. intros x Hx. apply Hall. now right. }
    lra.
Qed.

(** From index [n-1] on, the numerator of an entry is the sum of the window
    that ends there. *)
Lemma entry_numerator_is_window_sum (a : list R) (k t : nat) :
  (1 <= k)%nat -> (k - 1 <= t)%nat ->
  (if (t <? k)%nat
   then sum (firstn (S t) a)
   else sum (firstn (S t) a) - sum (firstn (S t - k) a))
  = sum (window a k t).
Proof.
  intros Hk Ht. unfold window.
  destruct (Nat.ltb_spec t k) as [Hlt | Hge].
  - replace (t + 1 - k)%nat with O by lia.
    replace k with (S t) by lia. reflexivity.
  - replace (S t) with ((t + 1 - k) + k)%nat at 1 by lia.
    rewrite firstn_add_split, sum_app.
    replace (S t - k)%nat with (t + 1 - k)%nat by lia.
    ring.
Qed.

Lemma in_window_in (a : list R) (k t : nat) (x : R) :
  In x (window a k t) -> In x a.
Proof.
  unfold window. intros Hin.
  apply (in_skipn_in (t + 1 - k)).
  rewrite <- (firstn_skipn k (skipn (t + 1 - k) a)).
  apply in_or_app. now left.
Qed.

End MovingAverageFacts.

(** X13.  [moving_average(a, n)] fails exactly when [n] is 0 and [a] is not
    empty, and then with a shape error; in every other case it returns. *)
Theorem moving_average_raises_iff (a : list R) (n : Z) :
  (moving_average a n = Raised ValueError <-> (n = 0%Z /\ a <> []))
  /\ ((exists out, moving_average a n = Returned out)
      <-> (n <> 0%Z \/ a = [])).
Proof.
  assert (Hret : n <> 0%Z \/ a = [] ->
                 exists out, moving_average a n = Returned out).
  { intros [Hn | ->].
    - destruct (moving_average_length a n Hn) as [out [Hout _]].
      now exists out.
    - exists []. apply moving_average_empty. }
  assert (Hraise : n = 0%Z /\ a <> [] ->
                   moving_average a n = Raised ValueError).
  { intros [-> Ha]. destruct a as [|x a]; [congruence|].
    apply moving_average_zero_window. }
  split; split.
  - intros Hr. destruct (Z.eq_dec n 0) as [Hn | Hn].
    + split; [exact Hn|]. intros ->.
      rewrite moving_average_empty in Hr. discriminate.
    + destruct (Hret (or_introl Hn)) as [out Hout]. congruence.
  - exact Hraise.
  - intros [out Hout]. destruct (Z.eq_dec n 0) as [Hn | Hn]; [|now left].
    right. destruct a as [|x a]; [reflexivity|].
    rewrite Hraise in Hout; [discriminate|].
    split; [exact Hn | discriminate].
  - exact Hret.
Qed.

(** X14.  A window at least as long as the input never subtracts: the result
    is the running total divided by [n] at every index. *)
Theorem moving_average_window_covers_input (a : list R) (n : Z) :
  (Z.of_nat (length a) <= n)%Z ->
  moving_average a n = Returned (map (fun x => x / IZR n) (cumsum a)).
Proof.
  intros Hn. destruct a as [|x a].
  - apply moving_average_empty.
  - assert (Hpos : (1 <= n)%Z) by (simpl length in Hn; lia).
    rewrite moving_average_nonzero by lia.
    assert (Hc : length (cumsum (x :: a)) = length (x :: a))
      by apply cumsum_from_length.
    assert (Hk : slice_bound n (length (x :: a)) = length (x :: a)).
    { unfold slice_bound. destruct (Z.ltb_spec n 0); lia. }
    rewrite Hk, <- Hc, firstn_all, skipn_all. cbn [zip_sub].
    now rewrite app_nil_r.
Qed.

Lemma moving_average_window_covers_input_witness :
  (Z.of_nat (length [1; 2]) <= 5)%Z
  /\ moving_average [1; 2] 5
     = Returned (map (fun x => x / IZR 5) (cumsum [1; 2])).
Proof.
  split; [simpl; lia|].
  apply (moving_average_window_covers_input [1; 2] 5). simpl. lia.
Defined.

(** X15.  The smoothed sequences of the variance study can be stacked: there
    is one per seed, each is returned without error, and each has
    [number_episodes] entries. *)
Theorem smoothed_scores_rectangular
        {W : Type} {C : Collaborators W} (h : Hyper) (seeds : list Z) :
  length (Experiment.smoothed_scores h seeds) = length seeds
  /\ Forall (fun r => exists out,
                 r = Returned out /\ length out = number_episodes h)
            (Experiment.smoothed_scores h seeds).
Proof.
  unfold Experiment.smoothed_scores, all_scores.
  split; [now rewrite !length_map|].
  apply Forall_forall. intros r Hin.
  apply in_map_iff in Hin. destruct Hin as [s [<- Hs]].
  apply in_map_iff in Hs. destruct Hs as [seed [<- _]].
  destruct (moving_average_length (snd (reinforce h seed false)) 50)
    as [out [Hout Hlen]]; [lia|].
  exists out. split; [exact Hout|]. rewrite Hlen.
  unfold reinforce.
  pose proof (episode_loop_invariant h false (number_episodes h)
                                     (initialise seed) []) as Hinv.
  cbv zeta in Hinv. change (last_entries 100 []) with (@nil R) in Hinv.
  destruct Hinv as (_ & _ & Hall & _). apply Hall. reflexivity.
Qed.

(** X16.  Smoothing stays within the range of its input from index [n-1]
    on: if every input lies in [[lo, hi]], so does every entry at an index
    [t >= n-1]. *)
Theorem moving_average_stays_in_range (a : list R) (n : Z) (t : nat)
        (lo hi : R) :
  (1 <= n)%Z -> (n <= Z.of_nat (length a))%Z ->
  (n - 1 <= Z.of_nat t)%Z -> (t < length a)%nat ->
  (forall x, In x a -> lo <= x <= hi) ->
  exists out v,
    moving_average a n = Returned out
    /\ nth_error out t = Some v
    /\ lo <= v <= hi.
Proof.
  intros Hn Hlen Hlo Hhi Hrange.
  destruct (moving_average_entry a n t Hn Hhi) as [out [Hout Hnth]].
  rewrite entry_numerator_is_window_sum in Hnth by lia.
  exists out. eexists. split; [exact Hout|]. split; [exact Hnth|].
  assert (Hw : length (window a (Z.to_nat n) t) = Z.to_nat n).
  { unfold window. rewrite length_firstn, length_skipn. lia. }
  assert (Hk : IZR n = INR (length (window a (Z.to_nat n) t))).
  { rewrite Hw, INR_IZR_INZ, Z2Nat.id by lia. reflexivity. }
  assert (Hpos : 0 < IZR n) by (apply IZR_lt; lia).
  pose proof (sum_ge_bound lo (window a (Z.to_nat n) t)) as Hge.
  pose proof (sum_le_bound hi (window a (Z.to_nat n) t)) as Hle.
  rewrite <- Hk in Hge, Hle.
  assert (Hge' : IZR n * lo <= sum (window a (Z.to_nat n) t)).
  { apply Hge. intros x Hx. apply Hrange. eapply in_window_in. exact Hx. }
  assert (Hle' : sum (window a (Z.to_nat n) t) <= IZR n * hi).
  { apply Hle. intros x Hx. apply Hrange. eapply in_window_in. exact Hx. }
  split.
  - apply (Rmult_le_reg_r (IZR n)); [exact Hpos|].
    unfold Rdiv. rewrite Rmult_assoc, Rinv_l by lra. lra.
  - apply (Rmult_le_reg_r (IZR n)); [exact Hpos|].
    unfold Rdiv. rewrite Rmult_assoc, Rinv_l by lra. lra.
Qed.

Lemma moving_average_stays_in_range_witness :
  (1 <= 2)%Z /\ (2 <= Z.of_nat (length [1; 2; 3; 4]))%Z
  /\ (2 - 1 <= Z.of_nat 2)%Z /\ (2 < length [1; 2; 3; 4])%nat
  /\ (forall x, In x [1; 2; 3; 4] -> 1 <= x <= 4)
  /\ exists out v,
      moving_average [1; 2; 3; 4] 2 = Returned out
      /\ nth_error out 2 = Some v
      /\ 1 <= v <= 4.
Proof.
  assert (Hrange : forall x, In x [1; 2; 3; 4] -> 1 <= x <= 4).
  { intros x [<- | [<- | [<- | [<- | []]]]]; lra. }
  split; [lia|]. split; [simpl; lia|]. split; [simpl; lia|].
  split; [simpl; lia|]. split; [exact Hrange|].
  apply (moving_average_stays_in_range [1; 2; 3; 4] 2 2 1 4);
    [lia | simpl; lia | simpl; lia | simpl; lia | exact Hrange].
Defined.
